(** * maths_module.py: random vectors, the Metropolis test and axis rotation

    A shallow embedding of [python_examples/maths_module.py] and the
    properties stated for it.

    Arithmetic model.  The Python code computes with IEEE doubles; here every
    float is a real number of [R] and every operation is the exact one
    ([np.cos] is [cos], [np.exp] is [exp], ...).  All theorems below are
    statements about this exact-arithmetic reading of the code.

    Arrays.  A one-dimensional numpy array is a [list R]; [a.size] is its
    length.

    Random source.  The ambient generator [np.random] is an explicit state
    [rng]: an infinite sequence of samples, a cursor into it and a counter of
    the calls made so far.  Functions that draw are state transformers in the
    monad [Rand]. *)

From Stdlib Require Import Reals Lra Lia List String Bool Arith.
Import ListNotations.

Open Scope R_scope.

(** ** numpy arrays *)

Module Np.

Definition array := list R.

Definition size (a : array) : nat := List.length a.

(** [a[i]]; the indices used by the source are always in range. *)
Definition item (a : array) (i : nat) : R := nth i a 0.

(** [k * a] and [a * k] for a scalar [k]. *)
Definition scale (k : R) (a : array) : array := map (fun x => k * x) a.

(** [a * k - 1.0]-style scalar operations are written with [map] at their
    place of use; [a ** 2] is elementwise. *)
Definition square (a : array) : array := map (fun x => x ^ 2) a.

(** [np.sum(a)]. *)
Definition sum (a : array) : R := fold_right Rplus 0 a.

Fixpoint zip_with (f : R -> R -> R) (a b : array) : array :=
  match a, b with
  | x :: a', y :: b' => f x y :: zip_with f a' b'
  | _, _ => []
  end.

(** [a + b] for one-dimensional arrays, with numpy's broadcasting rule:
    equal sizes add elementwise, a size-one operand is stretched, anything
    else raises [ValueError] (here [None]). *)
Definition add (a b : array) : option array :=
  if Nat.eqb (size a) (size b) then Some (zip_with Rplus a b)
  else if Nat.eqb (size a) 1 then Some (map (fun y => item a 0 + y) b)
  else if Nat.eqb (size b) 1 then Some (map (fun x => x + item b 0) a)
  else None.

(** [np.dot(a, b)] for one-dimensional arrays of equal size. *)
Definition dot (a b : array) : R := sum (zip_with Rmult a b).

(** [np.cross(a, b)] for two arrays of three components (the only case the
    source reaches). *)
Definition cross (a b : array) : array :=
  match a, b with
  | [a0; a1; a2], [b0; b1; b2] =>
      [a1 * b2 - a2 * b1; a2 * b0 - a0 * b2; a0 * b1 - a1 * b0]
  | _, _ => []
  end.

(** Euclidean norm, [sqrt(sum(a**2))]. *)
Definition norm (a : array) : R := sqrt (sum (square a)).

End Np.

(** ** math.isclose *)

(** [math.isclose(a, b)] with its default tolerances [rel_tol = 1e-09] and
    [abs_tol = 0.0]:
    [abs(a-b) <= max(rel_tol * max(abs(a), abs(b)), abs_tol)]. *)

Definition rel_tol : R := / 1000000000.
Definition abs_tol : R := 0.

Definition isclose (a b : R) : bool :=
  if Rle_dec (Rabs (a - b)) (Rmax (rel_tol * Rmax (Rabs a) (Rabs b)) abs_tol)
  then true else false.

(** ** The random source *)

Record rng : Type := mkRng {
  samples : nat -> R;   (* the sequence the generator will produce *)
  cursor  : nat;        (* how many samples have been consumed     *)
  calls   : nat         (* how many times the generator was called *)
}.

(** Every sample lies in [0,1). *)
Definition uniform (g : rng) : Prop := forall n, 0 <= samples g n < 1.

Definition Rand (A : Type) : Type := rng -> A * rng.

Definition ret {A} (x : A) : Rand A := fun g => (x, g).

Definition bind {A B} (m : Rand A) (k : A -> Rand B) : Rand B :=
  fun g => let (x, g') := m g in k x g'.

Notation "x <- m ;; k" := (bind m (fun x => k))
  (at level 61, m at next level, right associativity).

Fixpoint take (s : nat -> R) (i n : nat) : Np.array :=
  match n with
  | O => []
  | S k => s i :: take s (S i) k
  end.

(** [np.random.rand(n)]: one call, [n] samples. *)
Definition rand (n : nat) : Rand Np.array :=
  fun g => (take (samples g) (cursor g) n,
            mkRng (samples g) (cursor g + n) (S (calls g))).

(** [np.random.rand()]: one call, one sample, returned as a scalar. *)
Definition rand0 : Rand R :=
  fun g => (samples g (cursor g),
            mkRng (samples g) (cursor g + 1) (S (calls g))).

(** Samples and calls spent by running [m] from [g]. *)
Definition consumed {A} (m : Rand A) (g : rng) : nat :=
  cursor (snd (m g)) - cursor g.

Definition called {A} (m : Rand A) (g : rng) : nat :=
  calls (snd (m g)) - calls g.

(** ** Routines associated with random number generation *)

(** The cosine of the polar angle computed by [random_vector] from the first
    sample, and the test of its roundoff guard. *)
Definition cos_theta (zeta : Np.array) : R := 2 * Np.item zeta 0 - 1.

Definition clamped (c : R) : bool := if Rge_dec c 1 then true else false.

Definition random_vector : Rand Np.array :=
  zeta <- rand 2 ;;
  let c := cos_theta zeta in
  let s := if clamped c then 0 else sqrt (1 - c ^ 2) in
  let phi := Np.item zeta 1 * 2 * PI in
  ret [s * cos phi; s * sin phi; c].

Definition random_translate_vector (dr_max : R) (old : Np.array)
  : Rand (option Np.array) :=
  zeta <- rand 3 ;;
  let zeta := map (fun z => 2 * z - 1) zeta in
  ret (Np.add old (map (fun z => z * dr_max) zeta)).

Definition exponent_guard : R := 75.

Definition metropolis (delta : R) : Rand bool :=
  if Rgt_dec delta exponent_guard then ret false
  else if Rlt_dec delta 0 then ret true
  else
    zeta <- rand0 ;;
    ret (if Rgt_dec (exp (- delta)) zeta then true else false).

(** ** Low-level mathematical operations *)

(** What a call can raise: a failed [assert], with the message template and
    the arguments formatted into it, or numpy's [ValueError] for operands
    that cannot be broadcast together. *)
Inductive exception : Type :=
| AssertionError (msg : string) (args : Np.array)
| ValueError.

Definition rotate_vector (angle : R) (axis old : Np.array)
  : exception + Np.array :=
  if negb (Nat.eqb (Np.size old) 3) then
    inl (AssertionError "Incorrect size of old" [])
  else if negb (Nat.eqb (Np.size axis) 3) then
    inl (AssertionError "Incorrect size of axis" [])
  else if negb (isclose (Np.sum (Np.square axis)) 1) then
    inl (AssertionError "Non-unit vector {} {} {}" axis)
  else
    let c := cos angle in
    let s := sin angle in
    let proj := Np.dot axis old in
    match Np.add (Np.scale c old) (Np.scale ((1 - c) * proj) axis) with
    | Some e1 =>
        match Np.add e1 (Np.scale s (Np.cross axis old)) with
        | Some e => inr e
        | None => inl ValueError
        end
    | None => inl ValueError
    end.

(** ** The rotation formula as the specification words it *)

Module Spec.

Record vec3 : Type := mkVec { vx : R; vy : R; vz : R }.

Definition to_array (v : vec3) : Np.array := [vx v; vy v; vz v].

Definition vadd (a b : vec3) : vec3 :=
  mkVec (vx a + vx b) (vy a + vy b) (vz a + vz b).

Definition vscale (k : R) (a : vec3) : vec3 :=
  mkVec (k * vx a) (k * vy a) (k * vz a).

Definition vdot (a b : vec3) : R := vx a * vx b + vy a * vy b + vz a * vz b.

Definition vcross (a b : vec3) : vec3 :=
  mkVec (vy a * vz b - vz a * vy b)
        (vz a * vx b - vx a * vz b)
        (vx a * vy b - vy a * vx b).

(** cos(angle)*old + (1 - cos(angle))*(axis . old)*axis
    + sin(angle)*(axis x old) *)
Definition rodrigues (angle : R) (axis old : vec3) : vec3 :=
  vadd (vadd (vscale (cos angle) old)
             (vscale ((1 - cos angle) * vdot axis old) axis))
       (vscale (sin angle) (vcross axis old)).

Definition vnorm (a : vec3) : R := sqrt (vdot a a).

(** The unguarded Metropolis rule: always draw, always evaluate. *)
Definition metropolis_unguarded (delta : R) : Rand bool :=
  zeta <- rand0 ;;
  ret (if Rgt_dec (exp (- delta)) zeta then true else false).

End Spec.

(** ** Concrete inputs used in the examples below *)

(** A generator whose every sample is [z], not yet used. *)
Definition const_rng (z : R) : rng := mkRng (fun _ => z) 0 0.

Definition ex : Spec.vec3 := Spec.mkVec 1 0 0.
Definition ez : Spec.vec3 := Spec.mkVec 0 0 1.

(** The opposite vector, for the rotation about the reversed axis. *)
Definition vopp (a : Spec.vec3) : Spec.vec3 :=
  Spec.mkVec (- Spec.vx a) (- Spec.vy a) (- Spec.vz a).

(** The window of [math.isclose(x, 1.0)] with the default tolerances. *)
Definition close_lo : R := 999999999 / 1000000000.
Definition close_hi : R := 1000000000 / 999999999.

(** ** Proof automation *)

(** Counts the samples and calls of a routine whose draws are exposed. *)
Ltac count_draws :=
  unfold consumed, called, bind, rand, rand0, ret;
  cbn [fst snd cursor calls]; split; lia.

(** * Properties *)

(** ** Arrays of three components *)

Lemma size3_inv (a : Np.array) :
  Np.size a = 3%nat -> exists x y z, a = [x; y; z].
Proof.
  destruct a as [|x [|y [|z [|w a]]]]; simpl; try discriminate.
  intros _. now exists x, y, z.
Qed.

Lemma sum_square3 (x y z : R) :
  Np.sum (Np.square [x; y; z]) = x * x + y * y + z * z.
Proof. unfold Np.sum, Np.square; simpl. ring. Qed.

(** ** math.isclose *)

Lemma isclose_true_iff (a b : R) :
  isclose a b = true <->
  Rabs (a - b) <= Rmax (rel_tol * Rmax (Rabs a) (Rabs b)) abs_tol.
Proof.
  unfold isclose. destruct (Rle_dec _ _) as [H | H]; split; intros H';
    solve [assumption | reflexivity | discriminate | contradiction].
Qed.

Lemma isclose_refl (a : R) : isclose a a = true.
Proof.
  apply isclose_true_iff. unfold Rminus. rewrite Rplus_opp_r, Rabs_R0.
  unfold abs_tol. apply Rmax_r.
Qed.

(** ** rotate_vector on accepted arguments *)

(** Once the three assertions pass, the result is the Goldstein formula
    evaluated on the arguments exactly as supplied. *)
Lemma rotate_vector_accepted (angle : R) (axis old : Spec.vec3) :
  isclose (Np.sum (Np.square (Spec.to_array axis))) 1 = true ->
  rotate_vector angle (Spec.to_array axis) (Spec.to_array old)
  = inr (Spec.to_array (Spec.rodrigues angle axis old)).
Proof.
  intros Hc. destruct axis as [ax ay az], old as [ox oy oz].
  unfold rotate_vector, Spec.to_array in *; simpl in *.
  rewrite Hc; simpl.
  unfold Np.dot, Np.sum, Spec.vdot; simpl.
  do 2 f_equal; [ring | f_equal; [ring | f_equal; ring]].
Qed.

Lemma rotate_vector_bad_old (angle : R) (axis old : Np.array) :
  Np.size old <> 3%nat ->
  rotate_vector angle axis old
  = inl (AssertionError "Incorrect size of old" []).
Proof.
  intros H. unfold rotate_vector.
  apply Nat.eqb_neq in H. now rewrite H.
Qed.

Lemma rotate_vector_bad_axis (angle : R) (axis old : Np.array) :
  Np.size old = 3%nat -> Np.size axis <> 3%nat ->
  rotate_vector angle axis old
  = inl (AssertionError "Incorrect size of axis" []).
Proof.
  intros Ho Ha. unfold rotate_vector.
  apply Nat.eqb_eq in Ho. apply Nat.eqb_neq in Ha. now rewrite Ho, Ha.
Qed.

Lemma rotate_vector_non_unit (angle : R) (axis old : Np.array) :
  Np.size old = 3%nat -> Np.size axis = 3%nat ->
  isclose (Np.sum (Np.square axis)) 1 = false ->
  rotate_vector angle axis old
  = inl (AssertionError "Non-unit vector {} {} {}" axis).
Proof.
  intros Ho Ha Hc. unfold rotate_vector.
  apply Nat.eqb_eq in Ho. apply Nat.eqb_eq in Ha. now rewrite Ho, Ha, Hc.
Qed.

Lemma rotate_vector_ok (angle : R) (axis old : Np.array) :
  Np.size old = 3%nat -> Np.size axis = 3%nat ->
  isclose (Np.sum (Np.square axis)) 1 = true ->
  exists a o, axis = Spec.to_array a /\ old = Spec.to_array o /\
    rotate_vector angle axis old
    = inr (Spec.to_array (Spec.rodrigues angle a o)).
Proof.
  intros Ho Ha Hc.
  destruct (size3_inv _ Ho) as (ox & oy & oz & ->).
  destruct (size3_inv _ Ha) as (ax & ay & az & ->).
  exists (Spec.mkVec ax ay az), (Spec.mkVec ox oy oz).
  repeat split.
  exact (rotate_vector_accepted angle (Spec.mkVec ax ay az)
           (Spec.mkVec ox oy oz) Hc).
Qed.

Lemma unit_axis_isclose (axis : Spec.vec3) :
  Spec.vdot axis axis = 1 ->
  isclose (Np.sum (Np.square (Spec.to_array axis))) 1 = true.
Proof.
  intros H. unfold Spec.to_array. rewrite sum_square3.
  unfold Spec.vdot in H. rewrite H. apply isclose_refl.
Qed.

Lemma norm_to_array (v : Spec.vec3) :
  Np.norm (Spec.to_array v) = Spec.vnorm v.
Proof.
  unfold Np.norm, Spec.vnorm, Spec.to_array. now rewrite sum_square3.
Qed.

(** The squared length of the rotated vector, for any axis and angle: the
    two defects [c^2 + s^2 - 1] and [axis.axis - 1] are the only obstacles to
    its being the squared length of [old]. *)
Lemma rodrigues_dot (angle : R) (axis old : Spec.vec3) :
  let c := cos angle in
  let s := sin angle in
  let p := Spec.vdot axis old in
  Spec.vdot (Spec.rodrigues angle axis old) (Spec.rodrigues angle axis old)
  = Spec.vdot old old
    + (c * c + s * s - 1) * (Spec.vdot old old - p * p)
    + (Spec.vdot axis axis - 1)
      * ((1 - c) * (1 - c) * (p * p) + s * s * Spec.vdot old old).
Proof.
  destruct axis as [ax ay az], old as [ox oy oz].
  unfold Spec.rodrigues, Spec.vdot, Spec.vadd, Spec.vscale, Spec.vcross.
  simpl. ring.
Qed.

Lemma rodrigues_preserves_dot (angle : R) (axis old : Spec.vec3) :
  Spec.vdot axis axis = 1 ->
  Spec.vdot (Spec.rodrigues angle axis old) (Spec.rodrigues angle axis old)
  = Spec.vdot old old.
Proof.
  intros Hu. rewrite rodrigues_dot; cbv zeta. rewrite Hu.
  pose proof (sin2_cos2 angle) as Hcs. unfold Rsqr in Hcs.
  replace (cos angle * cos angle + sin angle * sin angle - 1) with 0 by lra.
  ring.
Qed.

(** ** C1 *)

(** C1. For every angle, every unit axis and every vector [old] of three
    components, [rotate_vector] returns exactly the Rodrigues/Goldstein
    rotation cos(angle)*old + (1 - cos(angle))*(axis . old)*axis +
    sin(angle)*(axis x old); in particular a quarter turn about the z axis
    sends (1,0,0) to (0,1,0). *)
Theorem rotate_vector_rodrigues :
  (forall (angle : R) (axis old : Spec.vec3),
      Spec.vdot axis axis = 1 ->
      rotate_vector angle (Spec.to_array axis) (Spec.to_array old)
      = inr (Spec.to_array (Spec.rodrigues angle axis old)))
  /\ rotate_vector (PI / 2) [0; 0; 1] [1; 0; 0] = inr [0; 1; 0].
Proof.
  assert (G : forall angle axis old,
             Spec.vdot axis axis = 1 ->
             rotate_vector angle (Spec.to_array axis) (Spec.to_array old)
             = inr (Spec.to_array (Spec.rodrigues angle axis old))).
  { intros angle axis old Hu.
    apply rotate_vector_accepted. now apply unit_axis_isclose. }
  split; [exact G |].
  change [0; 0; 1] with (Spec.to_array ez).
  change [1; 0; 0] with (Spec.to_array ex).
  rewrite G by (unfold Spec.vdot, ez; simpl; ring).
  unfold Spec.rodrigues, Spec.to_array, Spec.vadd, Spec.vscale, Spec.vcross,
    Spec.vdot, ez, ex; simpl.
  rewrite cos_PI2, sin_PI2.
  do 2 f_equal; [ring | f_equal; [ring | f_equal; ring]].
Qed.

Lemma rotate_vector_rodrigues_witness :
  Spec.vdot ez ez = 1 /\
  rotate_vector 0 (Spec.to_array ez) (Spec.to_array ex)
  = inr (Spec.to_array (Spec.rodrigues 0 ez ex)).
Proof.
  assert (H : Spec.vdot ez ez = 1) by (unfold Spec.vdot, ez; simpl; lra).
  split; [exact H | exact (proj1 rotate_vector_rodrigues 0 ez ex H)].
Defined.

(** ** C2 *)

(** C2. For every angle, every axis of unit length and every vector [old]
    of three components, whatever its magnitude, [rotate_vector] returns a
    vector whose Euclidean norm is the Euclidean norm of [old]. *)
Theorem rotate_vector_preserves_norm
  (angle : R) (axis old : Spec.vec3) :
  Spec.vdot axis axis = 1 ->
  exists e,
    rotate_vector angle (Spec.to_array axis) (Spec.to_array old) = inr e
    /\ Np.norm e = Np.norm (Spec.to_array old).
Proof.
  intros Hu. exists (Spec.to_array (Spec.rodrigues angle axis old)). split.
  - apply rotate_vector_accepted. now apply unit_axis_isclose.
  - rewrite !norm_to_array. unfold Spec.vnorm.
    now rewrite rodrigues_preserves_dot.
Qed.

Lemma rotate_vector_preserves_norm_witness :
  Spec.vdot ez ez = 1 /\
  exists e,
    rotate_vector 1 (Spec.to_array ez) (Spec.to_array (Spec.mkVec 3 4 5))
    = inr e
    /\ Np.norm e = Np.norm (Spec.to_array (Spec.mkVec 3 4 5)).
Proof.
  assert (H : Spec.vdot ez ez = 1) by (unfold Spec.vdot, ez; simpl; lra).
  split; [exact H |].
  exact (rotate_vector_preserves_norm 1 ez (Spec.mkVec 3 4 5) H).
Defined.

(** ** C3 *)

(** C3. [rotate_vector] raises a failed assertion, and returns nothing,
    exactly when [old] has not three components, or [axis] has not three
    components, or the sum of the squares of [axis] is not close to 1 for
    [math.isclose]; the message says which argument is malformed and, for an
    axis that is not of unit length, carries its components; an accepted
    axis is used as supplied, without being normalised. *)
Theorem rotate_vector_precondition (angle : R) (axis old : Np.array) :
  ((exists msg args,
       rotate_vector angle axis old = inl (AssertionError msg args)) <->
   (Np.size old <> 3%nat \/ Np.size axis <> 3%nat \/
    isclose (Np.sum (Np.square axis)) 1 = false))
  /\ (Np.size old <> 3%nat ->
      rotate_vector angle axis old
      = inl (AssertionError "Incorrect size of old" []))
  /\ (Np.size old = 3%nat -> Np.size axis <> 3%nat ->
      rotate_vector angle axis old
      = inl (AssertionError "Incorrect size of axis" []))
  /\ (Np.size old = 3%nat -> Np.size axis = 3%nat ->
      isclose (Np.sum (Np.square axis)) 1 = false ->
      rotate_vector angle axis old
      = inl (AssertionError "Non-unit vector {} {} {}" axis))
  /\ (Np.size old = 3%nat -> Np.size axis = 3%nat ->
      isclose (Np.sum (Np.square axis)) 1 = true ->
      exists a o, axis = Spec.to_array a /\ old = Spec.to_array o /\
        rotate_vector angle axis old
        = inr (Spec.to_array (Spec.rodrigues angle a o))).
Proof.
  split; [| repeat split].
  - split.
    + intros (msg & args & He).
      destruct (Nat.eq_dec (Np.size old) 3) as [Ho | Ho]; [| now left].
      destruct (Nat.eq_dec (Np.size axis) 3) as [Ha | Ha];
        [| now right; left].
      destruct (isclose (Np.sum (Np.square axis)) 1) eqn:Hc;
        [| now right; right].
      destruct (rotate_vector_ok angle axis old Ho Ha Hc)
        as (a & o & _ & _ & Hr).
      rewrite Hr in He. discriminate.
    + intros H.
      destruct (Nat.eq_dec (Np.size old) 3) as [Ho | Ho].
      2:{ do 2 eexists. now apply rotate_vector_bad_old. }
      destruct (Nat.eq_dec (Np.size axis) 3) as [Ha | Ha].
      2:{ do 2 eexists. now apply rotate_vector_bad_axis. }
      destruct H as [H | [H | H]]; try contradiction.
      do 2 eexists. now apply rotate_vector_non_unit.
  - apply rotate_vector_bad_old.
  - apply rotate_vector_bad_axis.
  - apply rotate_vector_non_unit.
  - apply rotate_vector_ok.
Qed.

(** The axis (1,1,0) of the specification's example: the sum of its squares
    is 2, which is not close to 1. *)
Lemma isclose_110 : isclose (Np.sum (Np.square [1; 1; 0])) 1 = false.
Proof.
  rewrite sum_square3. unfold isclose, rel_tol, abs_tol.
  destruct (Rle_dec _ _) as [H | H]; [exfalso | reflexivity].
  revert H. unfold Rmax, Rabs.
  repeat match goal with
         | |- context [Rle_dec ?a ?b] => destruct (Rle_dec a b)
         | |- context [Rcase_abs ?a] => destruct (Rcase_abs a)
         end; lra.
Qed.

Lemma rotate_vector_precondition_witness :
  Np.size [1; 0; 0] = 3%nat /\ Np.size [1; 1; 0] = 3%nat /\
  isclose (Np.sum (Np.square [1; 1; 0])) 1 = false /\
  rotate_vector 0 [1; 1; 0] [1; 0; 0]
  = inl (AssertionError "Non-unit vector {} {} {}" [1; 1; 0]).
Proof.
  repeat split; try exact isclose_110.
  exact (proj1 (proj2 (proj2 (proj2
           (rotate_vector_precondition 0 [1; 1; 0] [1; 0; 0]))))
           eq_refl eq_refl isclose_110).
Defined.

(** ** The Metropolis test, branch by branch *)

Lemma metropolis_guarded (delta : R) (g : rng) :
  delta > exponent_guard -> metropolis delta g = (false, g).
Proof.
  intros H. unfold metropolis.
  destruct (Rgt_dec delta exponent_guard); [reflexivity | contradiction].
Qed.

Lemma metropolis_downhill (delta : R) (g : rng) :
  delta < 0 -> metropolis delta g = (true, g).
Proof.
  intros H. unfold metropolis, exponent_guard.
  destruct (Rgt_dec delta 75); [lra |].
  destruct (Rlt_dec delta 0); [reflexivity | contradiction].
Qed.

Lemma metropolis_general (delta : R) (g : rng) :
  0 <= delta <= exponent_guard ->
  metropolis delta g = Spec.metropolis_unguarded delta g.
Proof.
  intros H. unfold metropolis, exponent_guard in *.
  destruct (Rgt_dec delta 75); [lra |].
  destruct (Rlt_dec delta 0); [lra | reflexivity].
Qed.

Lemma unguarded_decision (delta : R) (g : rng) :
  fst (Spec.metropolis_unguarded delta g) = true <->
  samples g (cursor g) < exp (- delta).
Proof.
  unfold Spec.metropolis_unguarded, bind, rand0, ret; simpl.
  destruct (Rgt_dec _ _) as [H | H]; simpl; split; intros H';
    solve [assumption | reflexivity | discriminate | contradiction].
Qed.

Lemma exp_neg_gt_1 (delta : R) : delta < 0 -> 1 < exp (- delta).
Proof.
  intros H. rewrite <- exp_0. apply exp_increasing. lra.
Qed.

Lemma uniform_const_rng (z : R) : 0 <= z < 1 -> uniform (const_rng z).
Proof. intros H n. exact H. Qed.

(** ** C4 *)

(** C4, refuted as stated: with delta = 76 and the draw zeta = 0 the guarded
    test rejects while the unguarded rule exp(-delta) > zeta accepts, so the
    two do not agree for every delta and every draw of [0,1). *)
Lemma metropolis_guard_not_exact :
  ~ (forall (delta : R) (g : rng),
        uniform g ->
        fst (metropolis delta g) = fst (Spec.metropolis_unguarded delta g)).
Proof.
  intros H.
  specialize (H 76 (const_rng 0) (uniform_const_rng 0 ltac:(lra))).
  rewrite metropolis_guarded in H by (unfold exponent_guard; lra).
  assert (A : fst (Spec.metropolis_unguarded 76 (const_rng 0)) = true)
    by (apply unguarded_decision; simpl; apply exp_pos).
  rewrite A in H. simpl in H. discriminate H.
Qed.

(** C4, amended. For every delta <= 75 and every draw of [0,1) the guarded
    test returns the decision of the unguarded rule exp(-delta) > zeta: for
    delta < 0 it accepts without drawing, leaving the random source as it
    was, and that is the decision of the unguarded rule, so the downhill
    exit is an exact simplification; for 0 <= delta <= 75 it is the
    unguarded rule itself, drawing the same sample. For delta > 75 the
    guarded test rejects without drawing, leaving the random source as it
    was, while the unguarded rule accepts exactly the draws
    zeta < exp(-delta): the exponent guard is not an exact simplification. *)
Theorem metropolis_refines_unguarded (delta : R) (g : rng) :
  uniform g ->
  (delta <= exponent_guard ->
   fst (metropolis delta g) = fst (Spec.metropolis_unguarded delta g))
  /\ (delta < 0 ->
      metropolis delta g = (true, g)
      /\ fst (Spec.metropolis_unguarded delta g) = true)
  /\ (0 <= delta <= exponent_guard ->
      metropolis delta g = Spec.metropolis_unguarded delta g)
  /\ (delta > exponent_guard ->
      metropolis delta g = (false, g)
      /\ (fst (Spec.metropolis_unguarded delta g) = true <->
          samples g (cursor g) < exp (- delta))).
Proof.
  intros Hu.
  assert (Hdown : delta < 0 ->
                  fst (Spec.metropolis_unguarded delta g) = true).
  { intros Hneg. apply unguarded_decision.
    pose proof (exp_neg_gt_1 delta Hneg). destruct (Hu (cursor g)). lra. }
  split; [| split; [| split]].
  - intros Hle. destruct (Rlt_dec delta 0) as [Hneg | Hpos].
    + rewrite metropolis_downhill by assumption. simpl. symmetry. auto.
    + rewrite metropolis_general by lra. reflexivity.
  - intros Hneg. split; [now apply metropolis_downhill | auto].
  - intros Hmid. now apply metropolis_general.
  - intros Hgt. split; [now apply metropolis_guarded |].
    apply unguarded_decision.
Qed.

Lemma metropolis_refines_unguarded_witness :
  uniform (const_rng (/ 2))
  /\ (-1 < 0
      /\ metropolis (-1) (const_rng (/ 2)) = (true, const_rng (/ 2))
      /\ fst (Spec.metropolis_unguarded (-1) (const_rng (/ 2))) = true)
  /\ (0 <= 1 <= exponent_guard
      /\ metropolis 1 (const_rng (/ 2))
         = Spec.metropolis_unguarded 1 (const_rng (/ 2)))
  /\ (76 > exponent_guard
      /\ metropolis 76 (const_rng (/ 2)) = (false, const_rng (/ 2))).
Proof.
  assert (Hu : uniform (const_rng (/ 2)))
    by (apply uniform_const_rng; lra).
  assert (Hm1 : -1 < 0) by lra.
  assert (H1 : 0 <= 1 <= exponent_guard) by (unfold exponent_guard; lra).
  assert (H76 : 76 > exponent_guard) by (unfold exponent_guard; lra).
  split; [exact Hu | split; [split; [exact Hm1 |] | split; split]].
  - exact (proj1 (proj2 (metropolis_refines_unguarded (-1)
                           (const_rng (/ 2)) Hu)) Hm1).
  - exact H1.
  - exact (proj1 (proj2 (proj2 (metropolis_refines_unguarded 1
                                  (const_rng (/ 2)) Hu))) H1).
  - exact H76.
  - exact (proj1 (proj2 (proj2 (proj2 (metropolis_refines_unguarded 76
                                         (const_rng (/ 2)) Hu))) H76)).
Defined.

(** ** C5 *)

(** C5. For every delta > 75 the test returns False and for every
    delta < 0 it returns True; in both cases the decision is the same from
    any two states of the random source, and the source is left as it was:
    no sample is consumed and no call is made. *)
Theorem metropolis_early_exit_deterministic (delta : R) :
  (delta > exponent_guard -> forall g, fst (metropolis delta g) = false)
  /\ (delta < 0 -> forall g, fst (metropolis delta g) = true)
  /\ (delta > exponent_guard \/ delta < 0 ->
      (forall g1 g2, fst (metropolis delta g1) = fst (metropolis delta g2))
      /\ (forall g, snd (metropolis delta g) = g)
      /\ (forall g, consumed (metropolis delta) g = 0%nat)
      /\ (forall g, called (metropolis delta) g = 0%nat)).
Proof.
  split; [| split].
  - intros H g. now rewrite metropolis_guarded.
  - intros H g. now rewrite metropolis_downhill.
  - intros [H | H]; unfold consumed, called; repeat split; intros;
      rewrite ?metropolis_guarded, ?metropolis_downhill by assumption;
      simpl; auto using Nat.sub_diag.
Qed.

Lemma metropolis_early_exit_deterministic_witness :
  (76 > exponent_guard /\ fst (metropolis 76 (const_rng 0)) = false)
  /\ (-1 < 0 /\ fst (metropolis (-1) (const_rng (/ 2))) = true)
  /\ snd (metropolis 76 (const_rng 0)) = const_rng 0.
Proof.
  assert (H76 : 76 > exponent_guard) by (unfold exponent_guard; lra).
  assert (Hm1 : -1 < 0) by lra.
  split; [split; [exact H76 |] | split; [split; [exact Hm1 |] |]].
  - exact (proj1 (metropolis_early_exit_deterministic 76) H76 (const_rng 0)).
  - exact (proj1 (proj2 (metropolis_early_exit_deterministic (-1))) Hm1
             (const_rng (/ 2))).
  - exact (proj1 (proj2 (proj2 (proj2
             (metropolis_early_exit_deterministic 76)) (or_introl H76)))
             (const_rng 0)).
Defined.

(** ** C6 *)

(** C6. For delta = 0 the test returns True for every draw zeta of [0,1):
    exp(-0) = 1 > zeta. *)
Theorem metropolis_zero_accepts (g : rng) :
  uniform g -> fst (metropolis 0 g) = true.
Proof.
  intros Hu. rewrite metropolis_general by (unfold exponent_guard; lra).
  apply unguarded_decision. rewrite Ropp_0, exp_0.
  apply (Hu (cursor g)).
Qed.

Lemma metropolis_zero_accepts_witness :
  uniform (const_rng (/ 2)) /\ fst (metropolis 0 (const_rng (/ 2))) = true.
Proof.
  assert (Hu : uniform (const_rng (/ 2)))
    by (apply uniform_const_rng; lra).
  split; [exact Hu | exact (metropolis_zero_accepts (const_rng (/ 2)) Hu)].
Defined.

(** ** random_translate_vector *)

Lemma random_translate_vector_value
  (dr_max : R) (old : Spec.vec3) (g : rng) :
  let z i := 2 * samples g (cursor g + i) - 1 in
  fst (random_translate_vector dr_max (Spec.to_array old) g)
  = Some (Spec.to_array
            (Spec.vadd old
               (Spec.mkVec (z 0%nat * dr_max) (z 1%nat * dr_max)
                  (z 2%nat * dr_max)))).
Proof.
  destruct old as [ox oy oz]. cbv zeta.
  unfold random_translate_vector, bind, rand, ret, Spec.to_array, Spec.vadd.
  simpl. unfold Np.add; simpl.
  replace (cursor g + 0)%nat with (cursor g) by lia.
  replace (cursor g + 1)%nat with (S (cursor g)) by lia.
  replace (cursor g + 2)%nat with (S (S (cursor g))) by lia.
  reflexivity.
Qed.

Lemma scaled_sample_bounded (u dr_max : R) :
  0 <= u < 1 -> 0 <= dr_max ->
  - dr_max <= (2 * u - 1) * dr_max <= dr_max.
Proof. intros Hu Hd. split; nra. Qed.

(** ** C7 *)

(** C7. For every vector [old] of three components and every state of the
    random source, [random_translate_vector] returns [old] plus an offset
    vector, whatever the sign of [dr_max] (which is not checked); when the
    three draws lie in [0,1) and [dr_max >= 0], each Cartesian component of
    the offset lies in [-dr_max, +dr_max]. *)
Theorem random_translate_vector_bounded
  (dr_max : R) (old : Spec.vec3) (g : rng) :
  exists offset : Spec.vec3,
    fst (random_translate_vector dr_max (Spec.to_array old) g)
    = Some (Spec.to_array (Spec.vadd old offset))
    /\ (uniform g -> 0 <= dr_max ->
        - dr_max <= Spec.vx offset <= dr_max
        /\ - dr_max <= Spec.vy offset <= dr_max
        /\ - dr_max <= Spec.vz offset <= dr_max).
Proof.
  eexists. split; [apply random_translate_vector_value |].
  intros Hu Hd. simpl. repeat split; apply scaled_sample_bounded; auto.
Qed.

Lemma random_translate_vector_bounded_witness :
  uniform (const_rng (/ 4)) /\ 0 <= 2 /\
  exists offset : Spec.vec3,
    fst (random_translate_vector 2 (Spec.to_array ex) (const_rng (/ 4)))
    = Some (Spec.to_array (Spec.vadd ex offset))
    /\ - 2 <= Spec.vx offset <= 2
    /\ - 2 <= Spec.vy offset <= 2
    /\ - 2 <= Spec.vz offset <= 2.
Proof.
  assert (Hu : uniform (const_rng (/ 4)))
    by (apply uniform_const_rng; lra).
  assert (Hd : 0 <= 2) by lra.
  split; [exact Hu | split; [exact Hd |]].
  destruct (random_translate_vector_bounded 2 ex (const_rng (/ 4)))
    as (offset & Hv & Hb).
  exists offset. split; [exact Hv | exact (Hb Hu Hd)].
Defined.

(** ** random_vector *)

Lemma cos_theta_range (g : rng) :
  uniform g -> -1 <= cos_theta (fst (rand 2 g)) < 1.
Proof.
  intros Hu. unfold cos_theta, rand, Np.item; simpl.
  destruct (Hu (cursor g)). lra.
Qed.

Lemma clamped_false (c : R) : c < 1 -> clamped c = false.
Proof.
  intros H. unfold clamped. destruct (Rge_dec c 1); [lra | reflexivity].
Qed.

Lemma one_minus_square_nonneg (c : R) : -1 <= c <= 1 -> 0 <= 1 - c ^ 2.
Proof. intros H. nra. Qed.

Lemma random_vector_value (g : rng) :
  let zeta := fst (rand 2 g) in
  let c := cos_theta zeta in
  let s := if clamped c then 0 else sqrt (1 - c ^ 2) in
  let phi := Np.item zeta 1 * 2 * PI in
  random_vector g = ([s * cos phi; s * sin phi; c], snd (rand 2 g)).
Proof. reflexivity. Qed.

Lemma unit_from_polar (c phi : R) :
  -1 <= c <= 1 ->
  Np.norm [sqrt (1 - c ^ 2) * cos phi; sqrt (1 - c ^ 2) * sin phi; c] = 1.
Proof.
  intros Hc. unfold Np.norm. rewrite sum_square3.
  pose proof (one_minus_square_nonneg c Hc) as Hs.
  pose proof (sqrt_sqrt _ Hs) as Hq.
  pose proof (sin2_cos2 phi) as Hp. unfold Rsqr in Hp.
  set (s := sqrt (1 - c ^ 2)) in *.
  replace (s * cos phi * (s * cos phi) + s * sin phi * (s * sin phi) + c * c)
    with (s * s * (sin phi * sin phi + cos phi * cos phi) + c * c) by ring.
  rewrite Hq, Hp.
  replace ((1 - c ^ 2) * 1 + c * c) with 1 by ring.
  apply sqrt_1.
Qed.

(** ** C8 *)

(** C8. For every pair of draws (u1, u2) of [0,1), [random_vector] returns
    (s*cos(phi), s*sin(phi), c) with c = 2*u1 - 1, s = sqrt(1 - c^2) (0 when
    c >= 1) and phi = 2*pi*u2, and the Euclidean norm of this vector is 1. *)
Theorem random_vector_unit (g : rng) :
  uniform g ->
  let u1 := samples g (cursor g) in
  let u2 := samples g (S (cursor g)) in
  let c := 2 * u1 - 1 in
  let s := if Rge_dec c 1 then 0 else sqrt (1 - c ^ 2) in
  let phi := 2 * PI * u2 in
  fst (random_vector g) = [s * cos phi; s * sin phi; c]
  /\ Np.norm (fst (random_vector g)) = 1.
Proof.
  intros Hu u1 u2 c s phi.
  pose proof (cos_theta_range g Hu) as Hc.
  assert (E : fst (random_vector g) = [s * cos phi; s * sin phi; c]).
  { rewrite random_vector_value. cbv zeta. simpl fst.
    unfold clamped, cos_theta, Np.item. simpl nth. fold u1 u2 c.
    replace (u2 * 2 * PI) with phi by (unfold phi; ring).
    unfold s. destruct (Rge_dec c 1); reflexivity. }
  split; [exact E |].
  rewrite E. unfold s.
  change (cos_theta (fst (rand 2 g))) with c in Hc.
  destruct (Rge_dec c 1); [lra |].
  apply unit_from_polar. lra.
Qed.

Lemma random_vector_unit_witness :
  uniform (const_rng (/ 2))
  /\ Np.norm (fst (random_vector (const_rng (/ 2)))) = 1.
Proof.
  assert (Hu : uniform (const_rng (/ 2)))
    by (apply uniform_const_rng; lra).
  split; [exact Hu |].
  exact (proj2 (random_vector_unit (const_rng (/ 2)) Hu)).
Defined.

(** ** What each routine takes from the random source *)

Lemma rand_cost (n : nat) (g : rng) :
  consumed (rand n) g = n /\ called (rand n) g = 1%nat.
Proof. count_draws. Qed.

Lemma random_vector_cost (g : rng) :
  consumed random_vector g = 2%nat /\ called random_vector g = 1%nat.
Proof. unfold random_vector. count_draws. Qed.

Lemma random_translate_vector_cost (dr_max : R) (old : Np.array) (g : rng) :
  consumed (random_translate_vector dr_max old) g = 3%nat
  /\ called (random_translate_vector dr_max old) g = 1%nat.
Proof. unfold random_translate_vector. count_draws. Qed.

Lemma metropolis_cost (delta : R) (g : rng) :
  (consumed (metropolis delta) g <= 1)%nat
  /\ (called (metropolis delta) g <= 1)%nat.
Proof.
  unfold metropolis.
  destruct (Rgt_dec delta exponent_guard); [count_draws |].
  destruct (Rlt_dec delta 0); count_draws.
Qed.

(** ** C9 *)

(** C9, refuted as stated: [random_translate_vector] takes three samples
    from the source in its one call, so it is not true that it consumes at
    most one sample per invocation. *)
Lemma random_translate_vector_three_samples :
  ~ ((forall g, consumed random_vector g = 2%nat)
     /\ (forall dr_max old g,
            (consumed (random_translate_vector dr_max old) g <= 1)%nat)
     /\ (forall delta g, (consumed (metropolis delta) g <= 1)%nat)).
Proof.
  intros (_ & H & _).
  specialize (H 1 [0; 0; 0] (const_rng 0)).
  destruct (random_translate_vector_cost 1 [0; 0; 0] (const_rng 0)) as [E _].
  rewrite E in H. lia.
Qed.

(** C9, amended. With the random source an explicit stream of uniform
    samples, every routine calls the source at most once per invocation:
    [random_vector] makes one call and consumes two samples,
    [random_translate_vector] makes one call and consumes three samples, and
    [metropolis] makes at most one call and consumes at most one sample. *)
Theorem random_source_usage (g : rng) :
  (consumed random_vector g = 2%nat /\ called random_vector g = 1%nat)
  /\ (forall dr_max old,
         consumed (random_translate_vector dr_max old) g = 3%nat
         /\ called (random_translate_vector dr_max old) g = 1%nat)
  /\ (forall delta,
         (consumed (metropolis delta) g <= 1)%nat
         /\ (called (metropolis delta) g <= 1)%nat).
Proof.
  split; [apply random_vector_cost | split]; intros.
  - apply random_translate_vector_cost.
  - apply metropolis_cost.
Qed.

(** ** C10 *)

(** C10. In [random_vector], for every first draw u1 of [0,1) the cosine
    c = 2*u1 - 1 is strictly below 1, so the guard c >= 1 is false and the
    clamp s = 0 is never taken; the square root is evaluated, on the
    non-negative argument 1 - c^2, and the function returns its vector. *)
Theorem random_vector_clamp_unreachable (g : rng) :
  uniform g ->
  let zeta := fst (rand 2 g) in
  let c := cos_theta zeta in
  let phi := Np.item zeta 1 * 2 * PI in
  c = 2 * samples g (cursor g) - 1
  /\ c < 1
  /\ clamped c = false
  /\ 0 <= 1 - c ^ 2
  /\ random_vector g
     = ([sqrt (1 - c ^ 2) * cos phi; sqrt (1 - c ^ 2) * sin phi; c],
        snd (rand 2 g)).
Proof.
  intros Hu zeta c phi.
  pose proof (cos_theta_range g Hu) as Hc. fold zeta c in Hc.
  assert (Hf : clamped c = false) by (apply clamped_false; lra).
  split; [reflexivity |].
  split; [lra |].
  split; [exact Hf |].
  split; [apply one_minus_square_nonneg; lra |].
  rewrite random_vector_value. cbv zeta. fold zeta c phi.
  now rewrite Hf.
Qed.

Lemma random_vector_clamp_unreachable_witness :
  uniform (const_rng (/ 2))
  /\ cos_theta (fst (rand 2 (const_rng (/ 2)))) < 1
  /\ clamped (cos_theta (fst (rand 2 (const_rng (/ 2))))) = false.
Proof.
  assert (Hu : uniform (const_rng (/ 2)))
    by (apply uniform_const_rng; lra).
  destruct (random_vector_clamp_unreachable (const_rng (/ 2)) Hu)
    as (_ & Hlt & Hf & _).
  split; [exact Hu | split; [exact Hlt | exact Hf]].
Defined.

(** * Further properties of the four routines *)

(** ** Rotation as a map on vectors *)

Lemma vec3_eq (a b : Spec.vec3) :
  Spec.vx a = Spec.vx b -> Spec.vy a = Spec.vy b -> Spec.vz a = Spec.vz b ->
  a = b.
Proof. destruct a, b; simpl; intros; subst; reflexivity. Qed.

Lemma rotate_vector_unit_axis (angle : R) (axis old : Spec.vec3) :
  Spec.vdot axis axis = 1 ->
  rotate_vector angle (Spec.to_array axis) (Spec.to_array old)
  = inr (Spec.to_array (Spec.rodrigues angle axis old)).
Proof.
  intros Hu. apply rotate_vector_accepted. now apply unit_axis_isclose.
Qed.

Lemma rodrigues_zero (axis old : Spec.vec3) :
  Spec.rodrigues 0 axis old = old.
Proof.
  unfold Spec.rodrigues. rewrite cos_0, sin_0.
  apply vec3_eq; destruct axis, old; simpl; ring.
Qed.

(** The projection on the axis after a rotation, for any axis. *)
Lemma rodrigues_axis_dot (angle : R) (axis old : Spec.vec3) :
  Spec.vdot axis (Spec.rodrigues angle axis old)
  = Spec.vdot axis old
    + (Spec.vdot axis axis - 1) * ((1 - cos angle) * Spec.vdot axis old).
Proof.
  destruct axis, old.
  unfold Spec.rodrigues, Spec.vdot, Spec.vadd, Spec.vscale, Spec.vcross.
  simpl. ring.
Qed.

(** Two rotations about one axis, for any axis: the rotation by the sum of
    the angles, up to a term that vanishes for a unit axis. *)
Lemma rodrigues_compose_defect (t u : R) (axis old : Spec.vec3) :
  Spec.rodrigues u axis (Spec.rodrigues t axis old)
  = Spec.vadd (Spec.rodrigues (t + u) axis old)
      (Spec.vscale (Spec.vdot axis axis - 1)
         (Spec.vadd
            (Spec.vscale ((1 - cos u) * (1 - cos t) * Spec.vdot axis old)
               axis)
            (Spec.vscale (- (sin u * sin t)) old))).
Proof.
  unfold Spec.rodrigues. rewrite cos_plus, sin_plus.
  generalize (cos t) (sin t) (cos u) (sin u). intros c s c' s'.
  apply vec3_eq; destruct axis, old;
    unfold Spec.vdot, Spec.vadd, Spec.vscale, Spec.vcross; simpl; ring.
Qed.

Lemma rodrigues_compose (t u : R) (axis old : Spec.vec3) :
  Spec.vdot axis axis = 1 ->
  Spec.rodrigues u axis (Spec.rodrigues t axis old)
  = Spec.rodrigues (t + u) axis old.
Proof.
  intros Hu. rewrite rodrigues_compose_defect, Hu.
  apply vec3_eq; unfold Spec.vadd, Spec.vscale; simpl; ring.
Qed.

(** The dot product of two rotated vectors, for any axis. *)
Lemma rodrigues_dot2 (angle : R) (axis o1 o2 : Spec.vec3) :
  let c := cos angle in
  let s := sin angle in
  let p1 := Spec.vdot axis o1 in
  let p2 := Spec.vdot axis o2 in
  Spec.vdot (Spec.rodrigues angle axis o1) (Spec.rodrigues angle axis o2)
  = Spec.vdot o1 o2
    + (c * c + s * s - 1) * (Spec.vdot o1 o2 - p1 * p2)
    + (Spec.vdot axis axis - 1)
      * ((1 - c) * (1 - c) * (p1 * p2) + s * s * Spec.vdot o1 o2).
Proof.
  destruct axis, o1, o2.
  unfold Spec.rodrigues, Spec.vdot, Spec.vadd, Spec.vscale, Spec.vcross.
  simpl. ring.
Qed.

(** A vector along the axis after a rotation, for any axis. *)
Lemma rodrigues_along_axis (angle k : R) (axis : Spec.vec3) :
  Spec.rodrigues angle axis (Spec.vscale k axis)
  = Spec.vadd (Spec.vscale k axis)
      (Spec.vscale ((Spec.vdot axis axis - 1) * ((1 - cos angle) * k)) axis).
Proof.
  unfold Spec.rodrigues. generalize (cos angle) (sin angle). intros c s.
  apply vec3_eq; destruct axis;
    unfold Spec.vdot, Spec.vadd, Spec.vscale, Spec.vcross; simpl; ring.
Qed.

(** X1. A rotation by the angle 0 returns [old] itself, for every axis the
    assertions accept (of unit length or only close to it). *)
Theorem rotate_vector_zero_angle (axis old : Np.array) :
  Np.size old = 3%nat -> Np.size axis = 3%nat ->
  isclose (Np.sum (Np.square axis)) 1 = true ->
  rotate_vector 0 axis old = inr old.
Proof.
  intros Ho Ha Hc.
  destruct (rotate_vector_ok 0 axis old Ho Ha Hc) as (a & o & _ & -> & Hr).
  now rewrite Hr, rodrigues_zero.
Qed.

Lemma rotate_vector_zero_angle_witness :
  rotate_vector 0 [0; 0; 1] [3; 4; 5] = inr [3; 4; 5].
Proof.
  exact (rotate_vector_zero_angle [0; 0; 1] [3; 4; 5] eq_refl eq_refl
           (unit_axis_isclose ez ltac:(unfold Spec.vdot, ez; simpl; lra))).
Defined.

(** X2. A rotation about a unit axis keeps the component along the axis:
    the dot product of the axis with the result is its dot product with
    [old]. *)
Theorem rotate_vector_keeps_axis_component
  (angle : R) (axis old : Spec.vec3) :
  Spec.vdot axis axis = 1 ->
  exists e,
    rotate_vector angle (Spec.to_array axis) (Spec.to_array old) = inr e
    /\ Np.dot (Spec.to_array axis) e
       = Np.dot (Spec.to_array axis) (Spec.to_array old).
Proof.
  intros Hu. eexists. split; [now apply rotate_vector_unit_axis |].
  pose proof (rodrigues_axis_dot angle axis old) as H. rewrite Hu in H.
  destruct axis, old.
  unfold Np.dot, Np.sum, Spec.to_array, Spec.vdot in *; simpl in *.
  lra.
Qed.

Lemma rotate_vector_keeps_axis_component_witness :
  Spec.vdot ez ez = 1 /\
  exists e,
    rotate_vector 1 (Spec.to_array ez) (Spec.to_array (Spec.mkVec 3 4 5))
    = inr e
    /\ Np.dot (Spec.to_array ez) e
       = Np.dot (Spec.to_array ez) (Spec.to_array (Spec.mkVec 3 4 5)).
Proof.
  assert (H : Spec.vdot ez ez = 1) by (unfold Spec.vdot, ez; simpl; lra).
  split; [exact H |].
  exact (rotate_vector_keeps_axis_component 1 ez (Spec.mkVec 3 4 5) H).
Defined.

(** X3. A vector along the unit axis is left where it is by every
    rotation about that axis. *)
Theorem rotate_vector_fixes_axis (angle k : R) (axis : Spec.vec3) :
  Spec.vdot axis axis = 1 ->
  rotate_vector angle (Spec.to_array axis)
    (Spec.to_array (Spec.vscale k axis))
  = inr (Spec.to_array (Spec.vscale k axis)).
Proof.
  intros Hu. rewrite rotate_vector_unit_axis by assumption.
  do 2 f_equal. rewrite rodrigues_along_axis, Hu.
  apply vec3_eq; unfold Spec.vadd, Spec.vscale; simpl; ring.
Qed.

Lemma rotate_vector_fixes_axis_witness :
  Spec.vdot ez ez = 1 /\
  rotate_vector 1 (Spec.to_array ez) (Spec.to_array (Spec.vscale 7 ez))
  = inr (Spec.to_array (Spec.vscale 7 ez)).
Proof.
  assert (H : Spec.vdot ez ez = 1) by (unfold Spec.vdot, ez; simpl; lra).
  split; [exact H | exact (rotate_vector_fixes_axis 1 7 ez H)].
Defined.

(** X4. Two successive rotations about one unit axis are the rotation by
    the sum of the angles: the second call accepts the result of the first
    and returns what one call with [t + u] returns. *)
Theorem rotate_vector_angles_add (t u : R) (axis old : Spec.vec3) :
  Spec.vdot axis axis = 1 ->
  exists e,
    rotate_vector t (Spec.to_array axis) (Spec.to_array old) = inr e
    /\ rotate_vector u (Spec.to_array axis) e
       = rotate_vector (t + u) (Spec.to_array axis) (Spec.to_array old).
Proof.
  intros Hu. eexists. split; [now apply rotate_vector_unit_axis |].
  rewrite !rotate_vector_unit_axis by assumption.
  now rewrite rodrigues_compose.
Qed.

Lemma rotate_vector_angles_add_witness :
  Spec.vdot ez ez = 1 /\
  exists e,
    rotate_vector 1 (Spec.to_array ez) (Spec.to_array ex) = inr e
    /\ rotate_vector 2 (Spec.to_array ez) e
       = rotate_vector (1 + 2) (Spec.to_array ez) (Spec.to_array ex).
Proof.
  assert (H : Spec.vdot ez ez = 1) by (unfold Spec.vdot, ez; simpl; lra).
  split; [exact H | exact (rotate_vector_angles_add 1 2 ez ex H)].
Defined.

(** X5. Rotating by [angle] and then by [- angle] about the same unit axis
    gives [old] back. *)
Theorem rotate_vector_inverse (angle : R) (axis old : Spec.vec3) :
  Spec.vdot axis axis = 1 ->
  exists e,
    rotate_vector angle (Spec.to_array axis) (Spec.to_array old) = inr e
    /\ rotate_vector (- angle) (Spec.to_array axis) e
       = inr (Spec.to_array old).
Proof.
  intros Hu. eexists. split; [now apply rotate_vector_unit_axis |].
  rewrite rotate_vector_unit_axis by assumption.
  rewrite rodrigues_compose by assumption.
  replace (angle + - angle) with 0 by ring.
  now rewrite rodrigues_zero.
Qed.

Lemma rotate_vector_inverse_witness :
  Spec.vdot ez ez = 1 /\
  exists e,
    rotate_vector 1 (Spec.to_array ez) (Spec.to_array ex) = inr e
    /\ rotate_vector (- 1) (Spec.to_array ez) e = inr (Spec.to_array ex).
Proof.
  assert (H : Spec.vdot ez ez = 1) by (unfold Spec.vdot, ez; simpl; lra).
  split; [exact H | exact (rotate_vector_inverse 1 ez ex H)].
Defined.

(** X6. A rotation about a unit axis keeps the dot product of any two
    vectors, hence the angle between them. *)
Theorem rotate_vector_preserves_dot
  (angle : R) (axis o1 o2 : Spec.vec3) :
  Spec.vdot axis axis = 1 ->
  exists e1 e2,
    rotate_vector angle (Spec.to_array axis) (Spec.to_array o1) = inr e1
    /\ rotate_vector angle (Spec.to_array axis) (Spec.to_array o2) = inr e2
    /\ Np.dot e1 e2 = Np.dot (Spec.to_array o1) (Spec.to_array o2).
Proof.
  intros Hu. do 2 eexists.
  split; [now apply rotate_vector_unit_axis |].
  split; [now apply rotate_vector_unit_axis |].
  pose proof (rodrigues_dot2 angle axis o1 o2) as H. cbv zeta in H.
  rewrite Hu in H.
  pose proof (sin2_cos2 angle) as Hcs. unfold Rsqr in Hcs.
  replace (cos angle * cos angle + sin angle * sin angle - 1) with 0 in H
    by lra.
  assert (D : forall a b : Spec.vec3,
             Np.dot (Spec.to_array a) (Spec.to_array b) = Spec.vdot a b).
  { intros a b. unfold Np.dot, Np.sum, Spec.to_array, Spec.vdot; simpl.
    ring. }
  rewrite !D, H. ring.
Qed.

Lemma rotate_vector_preserves_dot_witness :
  Spec.vdot ez ez = 1 /\
  exists e1 e2,
    rotate_vector 1 (Spec.to_array ez) (Spec.to_array ex) = inr e1
    /\ rotate_vector 1 (Spec.to_array ez)
         (Spec.to_array (Spec.mkVec 3 4 5)) = inr e2
    /\ Np.dot e1 e2
       = Np.dot (Spec.to_array ex) (Spec.to_array (Spec.mkVec 3 4 5)).
Proof.
  assert (H : Spec.vdot ez ez = 1) by (unfold Spec.vdot, ez; simpl; lra).
  split; [exact H |].
  exact (rotate_vector_preserves_dot 1 ez ex (Spec.mkVec 3 4 5) H).
Defined.

(** ** Which axes are accepted *)

Lemma isclose_one_window (x : R) :
  isclose x 1 = true <-> close_lo <= x <= close_hi.
Proof.
  rewrite isclose_true_iff. unfold rel_tol, abs_tol, close_lo, close_hi.
  unfold Rabs.
  destruct (Rcase_abs (x - 1)), (Rcase_abs x), (Rcase_abs 1);
    unfold Rmax;
    repeat match goal with
           | |- context [Rle_dec ?a 1] => destruct (Rle_dec a 1)
           end;
    repeat match goal with
           | |- context [Rle_dec ?a 0] => destruct (Rle_dec a 0)
           end;
    split; intros; try split; lra.
Qed.

(** X7. With two arrays of three components, [rotate_vector] returns a
    vector exactly when the sum of the squares of the axis lies between
    1 - 1e-9 and 1/(1 - 1e-9), the window of [math.isclose] about 1. *)
Theorem rotate_vector_accepts_window (angle : R) (axis old : Np.array) :
  Np.size old = 3%nat -> Np.size axis = 3%nat ->
  ((exists e, rotate_vector angle axis old = inr e) <->
   close_lo <= Np.sum (Np.square axis) <= close_hi).
Proof.
  intros Ho Ha. rewrite <- isclose_one_window. split.
  - intros [e He].
    destruct (isclose (Np.sum (Np.square axis)) 1) eqn:Hc; [reflexivity |].
    rewrite (rotate_vector_non_unit angle axis old Ho Ha Hc) in He.
    discriminate.
  - intros Hc.
    destruct (rotate_vector_ok angle axis old Ho Ha Hc)
      as (a & o & _ & _ & Hr).
    eexists. exact Hr.
Qed.

Lemma rotate_vector_accepts_window_witness :
  (exists e, rotate_vector 1 [0; 0; 1] [1; 0; 0] = inr e) <->
  close_lo <= Np.sum (Np.square [0; 0; 1]) <= close_hi.
Proof.
  exact (rotate_vector_accepts_window 1 [0; 0; 1] [1; 0; 0]
           eq_refl eq_refl).
Defined.

(** X8. The axis is used as supplied, without being normalised: for every
    accepted axis the squared length of the result differs from the squared
    length of [old] by
    (|axis|^2 - 1) * ((1 - cos)^2 * (axis . old)^2 + sin^2 * |old|^2). *)
Theorem rotate_vector_length_defect (angle : R) (axis old : Np.array) :
  Np.size old = 3%nat -> Np.size axis = 3%nat ->
  isclose (Np.sum (Np.square axis)) 1 = true ->
  exists e,
    rotate_vector angle axis old = inr e
    /\ Np.sum (Np.square e)
       = Np.sum (Np.square old)
         + (Np.sum (Np.square axis) - 1)
           * ((1 - cos angle) ^ 2 * Np.dot axis old ^ 2
              + sin angle ^ 2 * Np.sum (Np.square old)).
Proof.
  intros Ho Ha Hc.
  destruct (rotate_vector_ok angle axis old Ho Ha Hc)
    as (a & o & -> & -> & Hr).
  eexists. split; [exact Hr |].
  unfold Spec.to_array. rewrite !sum_square3.
  pose proof (rodrigues_dot angle a o) as H. cbv zeta in H.
  pose proof (sin2_cos2 angle) as Hcs. unfold Rsqr in Hcs.
  replace (cos angle * cos angle + sin angle * sin angle - 1) with 0 in H
    by lra.
  unfold Spec.vdot in H at 1. rewrite H.
  unfold Np.dot, Np.sum, Spec.vdot; simpl. ring.
Qed.

Lemma rotate_vector_length_defect_witness :
  exists e,
    rotate_vector 1 [0; 0; 1] [3; 4; 5] = inr e
    /\ Np.sum (Np.square e)
       = Np.sum (Np.square [3; 4; 5])
         + (Np.sum (Np.square [0; 0; 1]) - 1)
           * ((1 - cos 1) ^ 2 * Np.dot [0; 0; 1] [3; 4; 5] ^ 2
              + sin 1 ^ 2 * Np.sum (Np.square [3; 4; 5])).
Proof.
  exact (rotate_vector_length_defect 1 [0; 0; 1] [3; 4; 5] eq_refl eq_refl
           (unit_axis_isclose ez ltac:(unfold Spec.vdot, ez; simpl; lra))).
Defined.

(** ** Symmetries in the angle and the axis *)

(** X9. [rotate_vector] has period 2*pi in the angle, for all arguments:
    the same vector, or the same failed assertion. *)
Theorem rotate_vector_periodic (angle : R) (axis old : Np.array) :
  rotate_vector (angle + 2 * PI) axis old = rotate_vector angle axis old.
Proof.
  unfold rotate_vector.
  replace (cos (angle + 2 * PI)) with (cos angle)
    by (rewrite cos_plus, cos_2PI, sin_2PI; ring).
  replace (sin (angle + 2 * PI)) with (sin angle)
    by (rewrite sin_plus, cos_2PI, sin_2PI; ring).
  reflexivity.
Qed.

(** X10. Reversing both the axis and the angle gives the same rotation:
    for every accepted axis, [rotate_vector (- angle) (- axis) old] is
    [rotate_vector angle axis old]. *)
Theorem rotate_vector_reversed_axis (angle : R) (axis old : Spec.vec3) :
  isclose (Np.sum (Np.square (Spec.to_array axis))) 1 = true ->
  rotate_vector (- angle) (Spec.to_array (vopp axis)) (Spec.to_array old)
  = rotate_vector angle (Spec.to_array axis) (Spec.to_array old).
Proof.
  intros Hc.
  assert (Hc' : isclose (Np.sum (Np.square (Spec.to_array (vopp axis)))) 1
                = true).
  { rewrite <- Hc. f_equal. unfold Spec.to_array, vopp.
    rewrite !sum_square3. simpl. ring. }
  rewrite !rotate_vector_accepted by assumption.
  do 2 f_equal. unfold Spec.rodrigues. rewrite cos_neg, sin_neg.
  generalize (cos angle) (sin angle). intros c s.
  apply vec3_eq; destruct axis, old;
    unfold vopp, Spec.vdot, Spec.vadd, Spec.vscale, Spec.vcross; simpl; ring.
Qed.

Lemma rotate_vector_reversed_axis_witness :
  rotate_vector (- 1) (Spec.to_array (vopp ez)) (Spec.to_array ex)
  = rotate_vector 1 (Spec.to_array ez) (Spec.to_array ex).
Proof.
  exact (rotate_vector_reversed_axis 1 ez ex
           (unit_axis_isclose ez ltac:(unfold Spec.vdot, ez; simpl; lra))).
Defined.

(** X11. [rotate_vector] is linear in [old]: for every accepted axis the
    rotation of [k * o1 + o2] is [k] times the rotation of [o1] plus the
    rotation of [o2]. *)
Theorem rotate_vector_linear (angle k : R) (axis o1 o2 : Spec.vec3) :
  isclose (Np.sum (Np.square (Spec.to_array axis))) 1 = true ->
  exists e1 e2 : Spec.vec3,
    rotate_vector angle (Spec.to_array axis) (Spec.to_array o1)
    = inr (Spec.to_array e1)
    /\ rotate_vector angle (Spec.to_array axis) (Spec.to_array o2)
       = inr (Spec.to_array e2)
    /\ rotate_vector angle (Spec.to_array axis)
         (Spec.to_array (Spec.vadd (Spec.vscale k o1) o2))
       = inr (Spec.to_array (Spec.vadd (Spec.vscale k e1) e2)).
Proof.
  intros Hc. do 2 eexists.
  split; [now apply rotate_vector_accepted |].
  split; [now apply rotate_vector_accepted |].
  rewrite rotate_vector_accepted by assumption.
  do 2 f_equal. unfold Spec.rodrigues.
  generalize (cos angle) (sin angle). intros c s.
  apply vec3_eq; destruct axis, o1, o2;
    unfold Spec.vdot, Spec.vadd, Spec.vscale, Spec.vcross; simpl; ring.
Qed.

Lemma rotate_vector_linear_witness :
  exists e1 e2 : Spec.vec3,
    rotate_vector 1 (Spec.to_array ez) (Spec.to_array ex)
    = inr (Spec.to_array e1)
    /\ rotate_vector 1 (Spec.to_array ez) (Spec.to_array (Spec.mkVec 3 4 5))
       = inr (Spec.to_array e2)
    /\ rotate_vector 1 (Spec.to_array ez)
         (Spec.to_array (Spec.vadd (Spec.vscale 2 ex) (Spec.mkVec 3 4 5)))
       = inr (Spec.to_array (Spec.vadd (Spec.vscale 2 e1) e2)).
Proof.
  exact (rotate_vector_linear 1 2 ez ex (Spec.mkVec 3 4 5)
           (unit_axis_isclose ez ltac:(unfold Spec.vdot, ez; simpl; lra))).
Defined.

(** ** The Metropolis test as a function of delta and of the draw *)

(** X12. With draws in [0,1), the test accepts exactly when delta is at
    most the exponent guard and the next sample of the source is below
    exp(-delta); for delta < 0 that sample is not consumed. *)
Theorem metropolis_accepts_iff (delta : R) (g : rng) :
  uniform g ->
  (fst (metropolis delta g) = true <->
   delta <= exponent_guard /\ samples g (cursor g) < exp (- delta)).
Proof.
  intros Hu. destruct (Rgt_dec delta exponent_guard) as [Hg | Hg].
  - rewrite metropolis_guarded by assumption. simpl.
    split; [discriminate | intros [H _]; lra].
  - destruct (Rlt_dec delta 0) as [Hn | Hn].
    + rewrite metropolis_downhill by assumption. simpl.
      pose proof (exp_neg_gt_1 delta Hn). destruct (Hu (cursor g)).
      split; [intros _; split; lra | reflexivity].
    + rewrite metropolis_general by lra. rewrite unguarded_decision.
      split; [intros H; split; lra | intros [_ H]; exact H].
Qed.

Lemma metropolis_accepts_iff_witness :
  uniform (const_rng (/ 2)) /\
  (fst (metropolis 76 (const_rng (/ 2))) = true <->
   76 <= exponent_guard
   /\ samples (const_rng (/ 2)) (cursor (const_rng (/ 2))) < exp (- 76)).
Proof.
  assert (Hu : uniform (const_rng (/ 2)))
    by (apply uniform_const_rng; lra).
  split; [exact Hu | exact (metropolis_accepts_iff 76 (const_rng (/ 2)) Hu)].
Defined.

(** X13. From one state of the source the decision is monotone in delta:
    if a move of cost [d2] is accepted, so is every move of cost
    [d1 <= d2]. *)
Theorem metropolis_monotone (d1 d2 : R) (g : rng) :
  d1 <= d2 ->
  fst (metropolis d2 g) = true -> fst (metropolis d1 g) = true.
Proof.
  intros Hle H2.
  destruct (Rlt_dec d1 0) as [Hn | Hn];
    [now rewrite metropolis_downhill |].
  destruct (Rgt_dec d2 exponent_guard) as [Hg | Hg];
    [rewrite metropolis_guarded in H2 by assumption; discriminate |].
  rewrite metropolis_general in H2 by lra.
  rewrite metropolis_general by lra.
  apply unguarded_decision. apply unguarded_decision in H2.
  destruct (Req_dec d1 d2) as [-> | Hne]; [exact H2 |].
  apply Rlt_trans with (exp (- d2)); [exact H2 |].
  apply exp_increasing. lra.
Qed.

Lemma metropolis_monotone_witness :
  1 <= 2 /\ fst (metropolis 2 (const_rng 0)) = true /\
  fst (metropolis 1 (const_rng 0)) = true.
Proof.
  assert (Hle : 1 <= 2) by lra.
  assert (H2 : fst (metropolis 2 (const_rng 0)) = true).
  { unfold metropolis, exponent_guard.
    destruct (Rgt_dec 2 75); [lra |].
    destruct (Rlt_dec 2 0); [lra |].
    unfold bind, rand0, ret; simpl.
    destruct (Rgt_dec (exp (- (2))) 0) as [_ | Hn]; [reflexivity |].
    exfalso. apply Hn. apply exp_pos. }
  split; [exact Hle | split; [exact H2 |]].
  exact (metropolis_monotone 1 2 (const_rng 0) Hle H2).
Defined.

(** X14. The test draws exactly one sample, in one call, exactly when
    0 <= delta <= 75; both bounds are inside the drawing branch. Otherwise
    it draws none and makes no call: the random source is left as it
    was. *)
Theorem metropolis_draws_iff (delta : R) (g : rng) :
  (consumed (metropolis delta) g = 1%nat <-> 0 <= delta <= exponent_guard)
  /\ (called (metropolis delta) g = 1%nat <-> 0 <= delta <= exponent_guard)
  /\ (0 <= delta <= exponent_guard ->
      snd (metropolis delta g)
      = mkRng (samples g) (cursor g + 1) (S (calls g)))
  /\ (~ 0 <= delta <= exponent_guard ->
      consumed (metropolis delta) g = 0%nat
      /\ called (metropolis delta) g = 0%nat
      /\ snd (metropolis delta g) = g).
Proof.
  unfold consumed, called.
  destruct (Rgt_dec delta exponent_guard) as [Hg | Hg].
  - rewrite metropolis_guarded by assumption. cbn [snd].
    rewrite !Nat.sub_diag.
    split; [split; [discriminate | lra] |].
    split; [split; [discriminate | lra] |].
    split; [lra | auto].
  - destruct (Rlt_dec delta 0) as [Hn | Hn].
    + rewrite metropolis_downhill by assumption. cbn [snd].
      rewrite !Nat.sub_diag.
      split; [split; [discriminate | lra] |].
      split; [split; [discriminate | lra] |].
      split; [lra | auto].
    + rewrite metropolis_general by lra.
      unfold Spec.metropolis_unguarded, bind, rand0, ret.
      cbn [snd cursor calls].
      split; [split; [intros _; lra | intros _; lia] |].
      split; [split; [intros _; lra | intros _; lia] |].
      split; [reflexivity | intros H; exfalso; apply H; lra].
Qed.

(** ** random_vector as a source of rotation axes *)

Lemma random_vector_sumsq (g : rng) :
  uniform g -> Np.sum (Np.square (fst (random_vector g))) = 1.
Proof.
  intros Hu. pose proof (cos_theta_range g Hu) as Hc.
  rewrite random_vector_value. cbv zeta. cbn [fst].
  rewrite clamped_false by lra. rewrite sum_square3.
  set (c := cos_theta (fst (rand 2 g))) in *.
  set (phi := Np.item (fst (rand 2 g)) 1 * 2 * PI).
  assert (Hs : 0 <= 1 - c ^ 2) by (apply one_minus_square_nonneg; lra).
  pose proof (sqrt_sqrt _ Hs) as Hq.
  pose proof (sin2_cos2 phi) as Hp. unfold Rsqr in Hp.
  set (s := sqrt (1 - c ^ 2)) in *.
  replace (s * cos phi * (s * cos phi) + s * sin phi * (s * sin phi) + c * c)
    with (s * s * (sin phi * sin phi + cos phi * cos phi) + c * c) by ring.
  rewrite Hq, Hp. ring.
Qed.

(** X15. A vector drawn by [random_vector] from samples of [0,1) is always
    accepted as the axis of [rotate_vector], and the rotation about it
    keeps the Euclidean norm of [old]. *)
Theorem random_axis_rotation (angle : R) (old : Spec.vec3) (g : rng) :
  uniform g ->
  exists e,
    rotate_vector angle (fst (random_vector g)) (Spec.to_array old) = inr e
    /\ Np.norm e = Np.norm (Spec.to_array old).
Proof.
  intros Hu. pose proof (random_vector_sumsq g Hu) as Hq.
  rewrite random_vector_value in *. cbv zeta in *. cbn [fst] in *.
  match type of Hq with
  | Np.sum (Np.square [?x; ?y; ?z]) = 1 =>
      change [x; y; z] with (Spec.to_array (Spec.mkVec x y z)) in *;
      set (a := Spec.mkVec x y z) in *
  end.
  assert (Ha : Spec.vdot a a = 1).
  { unfold Spec.to_array in Hq. rewrite sum_square3 in Hq. exact Hq. }
  exists (Spec.to_array (Spec.rodrigues angle a old)). split.
  - now apply rotate_vector_unit_axis.
  - rewrite !norm_to_array. unfold Spec.vnorm.
    now rewrite rodrigues_preserves_dot.
Qed.

Lemma random_axis_rotation_witness :
  uniform (const_rng (/ 2)) /\
  exists e,
    rotate_vector 1 (fst (random_vector (const_rng (/ 2))))
      (Spec.to_array (Spec.mkVec 3 4 5)) = inr e
    /\ Np.norm e = Np.norm (Spec.to_array (Spec.mkVec 3 4 5)).
Proof.
  assert (Hu : uniform (const_rng (/ 2)))
    by (apply uniform_const_rng; lra).
  split; [exact Hu |].
  exact (random_axis_rotation 1 (Spec.mkVec 3 4 5) (const_rng (/ 2)) Hu).
Defined.

(** X16. With samples of [0,1) the third component of [random_vector] lies
    in [-1,1): the pole (0,0,1) is never returned, while a first sample 0
    gives the opposite pole (0,0,-1) whatever the second sample is. *)
Theorem random_vector_poles (g : rng) :
  uniform g ->
  -1 <= Np.item (fst (random_vector g)) 2 < 1
  /\ fst (random_vector g) <> [0; 0; 1]
  /\ (samples g (cursor g) = 0 -> fst (random_vector g) = [0; 0; -1]).
Proof.
  intros Hu. pose proof (cos_theta_range g Hu) as Hc.
  rewrite random_vector_value. cbv zeta. cbn [fst].
  split; [exact Hc | split].
  - intros E. injection E as _ _ E.
    assert (E' : cos_theta (fst (rand 2 g)) = 1) by exact E. lra.
  - intros H0. rewrite clamped_false by lra.
    assert (E : cos_theta (fst (rand 2 g)) = -1).
    { unfold cos_theta, rand, Np.item; simpl. rewrite H0. ring. }
    rewrite E. replace (1 - (-1) ^ 2) with 0 by ring. rewrite sqrt_0.
    now rewrite !Rmult_0_l.
Qed.

Lemma random_vector_poles_witness :
  uniform (const_rng 0) /\
  fst (random_vector (const_rng 0)) = [0; 0; -1].
Proof.
  assert (Hu : uniform (const_rng 0)) by (apply uniform_const_rng; lra).
  split; [exact Hu |].
  exact (proj2 (proj2 (random_vector_poles (const_rng 0) Hu)) eq_refl).
Defined.

Lemma metropolis_draws_iff_witness :
  (0 <= 75 <= exponent_guard
   /\ consumed (metropolis 75) (const_rng 0) = 1%nat)
  /\ (~ 0 <= 76 <= exponent_guard
      /\ consumed (metropolis 76) (const_rng 0) = 0%nat
      /\ called (metropolis 76) (const_rng 0) = 0%nat
      /\ snd (metropolis 76 (const_rng 0)) = const_rng 0)
  /\ (~ 0 <= -1 <= exponent_guard
      /\ consumed (metropolis (-1)) (const_rng 0) = 0%nat
      /\ called (metropolis (-1)) (const_rng 0) = 0%nat
      /\ snd (metropolis (-1) (const_rng 0)) = const_rng 0).
Proof.
  assert (H : 0 <= 75 <= exponent_guard) by (unfold exponent_guard; lra).
  assert (H76 : ~ 0 <= 76 <= exponent_guard)
    by (unfold exponent_guard; lra).
  assert (Hm1 : ~ 0 <= -1 <= exponent_guard) by lra.
  split; [split; [exact H |] | split; (split; [assumption |])].
  - exact (proj2 (proj1 (metropolis_draws_iff 75 (const_rng 0))) H).
  - exact (proj2 (proj2 (proj2 (metropolis_draws_iff 76 (const_rng 0))))
             H76).
  - exact (proj2 (proj2 (proj2 (metropolis_draws_iff (-1) (const_rng 0))))
             Hm1).
Defined.

(** ** The displacement of random_translate_vector *)

Lemma scaled_sample_abs (u dr_max : R) :
  0 <= u < 1 -> Rabs ((2 * u - 1) * dr_max) <= Rabs dr_max.
Proof.
  intros Hu. rewrite Rabs_mult.
  rewrite <- (Rmult_1_l (Rabs dr_max)) at 2.
  apply Rmult_le_compat_r; [apply Rabs_pos |].
  apply Rabs_le. lra.
Qed.

Lemma scaled_sample_half_open (u dr_max : R) :
  0 <= u < 1 -> 0 < dr_max ->
  - dr_max <= (2 * u - 1) * dr_max < dr_max.
Proof. intros Hu Hd. split; nra. Qed.

(** X17. Whatever the sign of [dr_max], with samples of [0,1) each
    Cartesian component of the offset added to [old] is at most
    [|dr_max|] in absolute value. *)
Theorem random_translate_vector_abs_bound
  (dr_max : R) (old : Spec.vec3) (g : rng) :
  uniform g ->
  exists offset : Spec.vec3,
    fst (random_translate_vector dr_max (Spec.to_array old) g)
    = Some (Spec.to_array (Spec.vadd old offset))
    /\ Rabs (Spec.vx offset) <= Rabs dr_max
    /\ Rabs (Spec.vy offset) <= Rabs dr_max
    /\ Rabs (Spec.vz offset) <= Rabs dr_max.
Proof.
  intros Hu. eexists. split; [apply random_translate_vector_value |].
  simpl. repeat split; apply scaled_sample_abs; apply Hu.
Qed.

Lemma random_translate_vector_abs_bound_witness :
  uniform (const_rng (/ 4)) /\
  exists offset : Spec.vec3,
    fst (random_translate_vector (- 2) (Spec.to_array ex) (const_rng (/ 4)))
    = Some (Spec.to_array (Spec.vadd ex offset))
    /\ Rabs (Spec.vx offset) <= Rabs (- 2)
    /\ Rabs (Spec.vy offset) <= Rabs (- 2)
    /\ Rabs (Spec.vz offset) <= Rabs (- 2).
Proof.
  assert (Hu : uniform (const_rng (/ 4)))
    by (apply uniform_const_rng; lra).
  split; [exact Hu |].
  exact (random_translate_vector_abs_bound (- 2) ex (const_rng (/ 4)) Hu).
Defined.

(** X18. For [dr_max > 0] and samples of [0,1) the offset lies in the
    half-open cube: each component is at least [- dr_max] and strictly
    below [dr_max]. *)
Theorem random_translate_vector_half_open
  (dr_max : R) (old : Spec.vec3) (g : rng) :
  uniform g -> 0 < dr_max ->
  exists offset : Spec.vec3,
    fst (random_translate_vector dr_max (Spec.to_array old) g)
    = Some (Spec.to_array (Spec.vadd old offset))
    /\ - dr_max <= Spec.vx offset < dr_max
    /\ - dr_max <= Spec.vy offset < dr_max
    /\ - dr_max <= Spec.vz offset < dr_max.
Proof.
  intros Hu Hd. eexists. split; [apply random_translate_vector_value |].
  simpl. repeat split; apply scaled_sample_half_open; auto.
Qed.

Lemma random_translate_vector_half_open_witness :
  uniform (const_rng (/ 4)) /\ 0 < 2 /\
  exists offset : Spec.vec3,
    fst (random_translate_vector 2 (Spec.to_array ex) (const_rng (/ 4)))
    = Some (Spec.to_array (Spec.vadd ex offset))
    /\ - 2 <= Spec.vx offset < 2
    /\ - 2 <= Spec.vy offset < 2
    /\ - 2 <= Spec.vz offset < 2.
Proof.
  assert (Hu : uniform (const_rng (/ 4)))
    by (apply uniform_const_rng; lra).
  assert (Hd : 0 < 2) by lra.
  split; [exact Hu | split; [exact Hd |]].
  exact (random_translate_vector_half_open 2 ex (const_rng (/ 4)) Hu Hd).
Defined.

(** X19. With [dr_max = 0] the vector is returned unmoved, whatever the
    samples are (the three samples are drawn all the same). *)
Theorem random_translate_vector_zero (old : Spec.vec3) (g : rng) :
  fst (random_translate_vector 0 (Spec.to_array old) g)
  = Some (Spec.to_array old)
  /\ consumed (random_translate_vector 0 (Spec.to_array old)) g = 3%nat.
Proof.
  split; [| apply random_translate_vector_cost].
  rewrite random_translate_vector_value. cbv zeta.
  do 2 f_equal. apply vec3_eq; unfold Spec.vadd; simpl; ring.
Qed.


